(** * automl_zero/definitions.h: a shallow embedding

    The header declares the integer vocabulary of the search engine, the
    reserved memory addresses, the diagnostic rendering of tensors, the
    validating opcode conversion, the CHECK-guarded helpers and the seed
    mixer.  Each definition below follows the C++ function of the same
    name; a failed CHECK is the [CheckFailed] outcome of the [Checked]
    monad.  What the header takes from other headers (the printer of a
    double, [Op] and [Op_IsValid], [util_intops::SafeAdd], [HashMix])
    enters as a class, so every statement holds for whatever those headers
    provide.

    Part I holds the definitions, Part II the theorems. *)

From Stdlib Require Import ZArith List String Ascii Bool Lia DecimalString.
Import ListNotations.

Local Open Scope Z_scope.

(* ===================================================================== *)
(** * Part I: definitions *)
(* ===================================================================== *)

(** ** CHECK and the outcome of a guarded call *)

Module Check.

Inductive Checked (A : Type) : Type :=
| Returned (a : A)
| CheckFailed.
Arguments Returned {A} a.
Arguments CheckFailed {A}.

Definition bind {A B : Type} (c : Checked A) (k : A -> Checked B) : Checked B :=
  match c with
  | Returned a => k a
  | CheckFailed => CheckFailed
  end.

(** [CHECK(cond)]: goes on when [cond] holds, aborts otherwise.
    [CHECK_GT(a, b)] and [CHECK_LT(a, b)] are [CHECK] of the comparison. *)
Definition CHECK (cond : bool) : Checked unit :=
  if cond then Returned tt else CheckFailed.

End Check.
Import Check.

Notation "x <- c ;; k" := (bind c (fun x => k))
  (at level 61, c at next level, right associativity).
Notation "c ;;; k" := (bind c (fun _ => k))
  (at level 61, right associativity).

(** ** Integer types *)

Module IntTypes.

(** A C++ integer type: its signedness and its width in bits. *)
Record IntType : Type := MkIntType { is_signed : bool; width : Z }.

Definition min_value (T : IntType) : Z :=
  if is_signed T then - 2 ^ (width T - 1) else 0.

Definition max_value (T : IntType) : Z :=
  if is_signed T then 2 ^ (width T - 1) - 1 else 2 ^ width T - 1.

Definition in_range (T : IntType) (v : Z) : Prop :=
  min_value T <= v <= max_value T.

Definition representable (T : IntType) (v : Z) : bool :=
  (min_value T <=? v) && (v <=? max_value T).

(** Integral conversion ([static_cast], or the implicit conversion of an
    initialisation or a return statement): the value modulo [2 ^ width],
    read back as a signed number when the target is signed. *)
Definition convert (T : IntType) (v : Z) : Z :=
  let m := v mod 2 ^ width T in
  if is_signed T && (2 ^ (width T - 1) <=? m) then m - 2 ^ width T else m.

Definition int64_t : IntType := MkIntType true 64.
Definition int_t : IntType := MkIntType true 32.
Definition uint16_t : IntType := MkIntType false 16.
Definition uint32 : IntType := MkIntType false 32.
Definition size_t : IntType := MkIntType false 64.

(** The typedefs of the header. *)
Definition IntegerT : IntType := int64_t.
Definition RandomSeedT : IntType := uint32.
Definition FeatureIndexT : IntType := int_t.
Definition AddressT : IntType := uint16_t.
Definition DeprecatedOpIndexT : IntType := uint16_t.
Definition InstructionIndexT : IntType := uint16_t.

End IntTypes.
Import IntTypes.

(** ** Compile-time capacities and reserved addresses *)

Module Memory.

(** The three [-D] flags a build may pass; [None] is a flag left out. *)
Record BuildFlags : Type := MkBuildFlags {
  D_MAX_SCALAR_ADDRESSES : option Z;
  D_MAX_VECTOR_ADDRESSES : option Z;
  D_MAX_MATRIX_ADDRESSES : option Z
}.

Definition default_flags : BuildFlags := MkBuildFlags None None None.

(** [#ifndef M] / [#define M dflt] / [#endif] *)
Definition ifndef_define (flag : option Z) (dflt : Z) : Z :=
  match flag with Some n => n | None => dflt end.

Definition MAX_SCALAR_ADDRESSES (f : BuildFlags) : Z :=
  ifndef_define (D_MAX_SCALAR_ADDRESSES f) 20.

Definition MAX_VECTOR_ADDRESSES (f : BuildFlags) : Z :=
  ifndef_define (D_MAX_VECTOR_ADDRESSES f) 20.

Definition MAX_MATRIX_ADDRESSES (f : BuildFlags) : Z :=
  ifndef_define (D_MAX_MATRIX_ADDRESSES f) 20.

(** [constexpr AddressT k = n;] *)
Definition constexpr_AddressT (n : Z) : Z := convert AddressT n.

Definition kLabelsScalarAddress : Z := constexpr_AddressT 0.
Definition kPredictionsScalarAddress : Z := constexpr_AddressT 1.
Definition kMaxScalarAddresses (f : BuildFlags) : Z :=
  constexpr_AddressT (MAX_SCALAR_ADDRESSES f).

Definition kFeaturesVectorAddress : Z := constexpr_AddressT 0.
Definition kLabelsVectorAddress : Z := constexpr_AddressT 1.
Definition kPredictionsVectorAddress : Z := constexpr_AddressT 2.
Definition kMaxVectorAddresses (f : BuildFlags) : Z :=
  constexpr_AddressT (MAX_VECTOR_ADDRESSES f).

Definition kFirstOutMatrixAddress : Z := constexpr_AddressT 0.
Definition kMaxMatrixAddresses (f : BuildFlags) : Z :=
  constexpr_AddressT (MAX_MATRIX_ADDRESSES f).

End Memory.
Import Memory.

(** ** Rendering of vectors and matrices *)

Module Rendering.

(** [operator<<(std::ostream&, double)] on a fresh [std::ostringstream]:
    the text of one coordinate.  The header does not fix it. *)
Class DoublePrinter (Scalar : Type) : Type := {
  print_double : Scalar -> string
}.

Definition newline : string := String (ascii_of_nat 10) EmptyString.

(** A [std::ostringstream] is the text written so far. *)
Definition ostringstream : Type := string.

Definition put (message : ostringstream) (text : string) : ostringstream :=
  (message ++ text)%string.

Notation "m << t" := (put m t) (at level 40, left associativity).

Section Tensors.
Context {Scalar : Type} `{DoublePrinter Scalar}.

(** [Vector<F>]: the coefficient [value(i)].  [Matrix<F>]: [value(i, j)]. *)
Definition Vector (F : Z) : Type := Z -> Scalar.
Definition Matrix (F : Z) : Type := Z -> Z -> Scalar.

(** [for (IntegerT i = ...; i < F; ++i) message << value(i) << ", ";]
    with [todo] iterations left, the next one at index [i]. *)
Fixpoint VectorToString_loop (value : Z -> Scalar) (todo : nat) (i : Z)
    (message : ostringstream) : ostringstream :=
  match todo with
  | O => message
  | S todo' =>
      VectorToString_loop value todo' (i + 1)
        (message << print_double (value i) << ", "%string)
  end.

Definition VectorToString (F : Z) (value : Vector F) : string :=
  let message : ostringstream := EmptyString in
  let message := message << "["%string in
  let message := VectorToString_loop value (Z.to_nat F) 0 message in
  let message := message << "]"%string in
  message.

Definition ToString_Vector (F : Z) (value : Vector F) : string :=
  VectorToString F value.

(** The outer loop of [MatrixToString]; its body runs the inner loop over
    [j] on row [i]. *)
Fixpoint MatrixToString_loop (F : Z) (value : Z -> Z -> Scalar) (todo : nat)
    (i : Z) (message : ostringstream) : ostringstream :=
  match todo with
  | O => message
  | S todo' =>
      let message := message << "["%string in
      let message := VectorToString_loop (value i) (Z.to_nat F) 0 message in
      let message := message << ("]," ++ newline)%string in
      MatrixToString_loop F value todo' (i + 1) message
  end.

Definition MatrixToString (F : Z) (value : Matrix F) : string :=
  let message : ostringstream := EmptyString in
  let message := message << (newline ++ "[")%string in
  let message := MatrixToString_loop F value (Z.to_nat F) 0 message in
  let message := message << ("]" ++ newline)%string in
  message.

Definition ToString_Matrix (F : Z) (value : Matrix F) : string :=
  MatrixToString F value.

(** The coordinates in index order, and the listing the loops are
    compared with. *)
Definition coords (F : Z) (value : Z -> Scalar) : list Scalar :=
  map (fun i => value (Z.of_nat i)) (seq 0 (Z.to_nat F)).

Definition rows (F : Z) (value : Z -> Z -> Scalar) : list (list Scalar) :=
  map (fun i => coords F (value (Z.of_nat i))) (seq 0 (Z.to_nat F)).

Fixpoint comma_separated (xs : list Scalar) : string :=
  match xs with
  | [] => EmptyString
  | x :: xs' => (print_double x ++ ", " ++ comma_separated xs')%string
  end.

Fixpoint bracketed_rows (rs : list (list Scalar)) : string :=
  match rs with
  | [] => EmptyString
  | r :: rs' =>
      ("[" ++ comma_separated r ++ "]," ++ newline ++ bracketed_rows rs')%string
  end.

End Tensors.

End Rendering.
Import Rendering.

(** ** Instructions: the validating conversion to [Op] *)

Module Instructions.

(** The enum [Op] and its validity test come from the generated
    [definitions.proto.h]; [static_cast_Op] is [static_cast<Op>(value)].
    Both take the [IntegerT] as the call site passes it. *)
Class OpEnum : Type := {
  Op : Type;
  Op_IsValid : Z -> bool;
  static_cast_Op : Z -> Op
}.

Section ConvertToOps.
Context `{OpEnum}.

Definition push_back (converted_values : list Op) (op : Op) : list Op :=
  converted_values ++ [op].

(** The range-for of [ConvertToOps] over what is left of [values]. *)
Fixpoint ConvertToOps_loop (values : list Z) (converted_values : list Op)
    : Checked (list Op) :=
  match values with
  | [] => Returned converted_values
  | value :: values' =>
      CHECK (Op_IsValid value) ;;;
      ConvertToOps_loop values' (push_back converted_values (static_cast_Op value))
  end.

Definition ConvertToOps (values : list Z) : Checked (list Op) :=
  let converted_values : list Op := [] in
  ConvertToOps_loop values converted_values.

End ConvertToOps.

End Instructions.
Import Instructions.

(** ** Commonly used methods: SafeCast and the OrDie guards *)

Module Methods.

(** [util_intops::SafeAdd(a, b, &result)] of [util/intops/safe_int_ops.h]:
    the success flag and what is left in [*result], for the result type
    [R].  *)
Class SafeIntOps : Type := {
  SafeAdd : IntType -> Z -> Z -> bool * Z
}.

(** [template<typename InT, typename OutT> OutT SafeCast(const InT value)] *)
Definition SafeCast `{SafeIntOps} (InT OutT : IntType) (value : Z) : Checked Z :=
  let '(ok, result) := SafeAdd OutT value 0 in
  CHECK ok ;;;
  Returned result.

(** What [safe_int_ops.h] promises of [SafeAdd]: when the sum of the two
    arguments, taken in the integers, fits the result type, the call
    succeeds and stores the sum; when it does not fit, the call reports
    failure. *)
Definition SafeAdd_contract (ops : SafeIntOps) : Prop :=
  forall (R : IntType) (a b : Z),
    (in_range R (a + b) -> @SafeAdd ops R a b = (true, a + b)) /\
    (~ in_range R (a + b) -> fst (@SafeAdd ops R a b) = false).

(** A numeric type as [PositiveOrDie] uses it: the value-initialised
    [NumericT()] and [operator>]. *)
Class Numeric (NumericT : Type) : Type := {
  value_init : NumericT;
  greater : NumericT -> NumericT -> bool
}.

#[export] Instance Numeric_IntegerT : Numeric Z := {
  value_init := 0;
  greater a b := a >? b
}.

Definition PositiveOrDie {NumericT : Type} `{Numeric NumericT}
    (value : NumericT) : Checked NumericT :=
  CHECK (greater value value_init) ;;;
  Returned value.

(** A pointer is null or holds a location of the store it points into. *)
Inductive Pointer : Type :=
| nullptr
| location (l : positive).

Definition is_null (p : Pointer) : bool :=
  match p with nullptr => true | location _ => false end.

Definition NotNullOrDie (value : Pointer) : Checked Pointer :=
  CHECK (negb (is_null value)) ;;;
  Returned value.

(** A container as the guards use it: [empty()] and [size()]. *)
Class Container (ContainerT : Type) : Type := {
  empty : ContainerT -> bool;
  size : ContainerT -> Z
}.

#[export] Instance Container_vector {A : Type} : Container (list A) := {
  empty v := match v with [] => true | _ :: _ => false end;
  size v := Z.of_nat (List.length v)
}.

#[export] Instance Container_string : Container string := {
  empty s := match s with EmptyString => true | String _ _ => false end;
  size s := Z.of_nat (String.length s)
}.

Section Guards.
Context {ContainerT : Type} `{Container ContainerT}.

(** The overloads on [const ContainerT&] and on [ContainerT&]. *)
Definition NonEmptyOrDie (value : ContainerT) : Checked ContainerT :=
  CHECK (negb (empty value)) ;;;
  Returned value.

Definition SizeLessThanOrDie (value : ContainerT) (max_size : Z)
    : Checked ContainerT :=
  CHECK (size value <? max_size) ;;;
  Returned value.

(** The overloads on [ContainerT*] read the container through the pointer
    and hand the pointer back.  The store maps a location to the
    container that lives there; reading through a pointer that holds no
    container has no defined outcome ([None]). *)
Definition Store : Type := positive -> option ContainerT.

Definition load (store : Store) (p : Pointer) : option ContainerT :=
  match p with
  | nullptr => None
  | location l => store l
  end.

Definition NonEmptyOrDie_ptr (store : Store) (value : Pointer)
    : option (Checked Pointer) :=
  match load store value with
  | None => None
  | Some pointee => Some (CHECK (negb (empty pointee)) ;;; Returned value)
  end.

Definition SizeLessThanOrDie_ptr (store : Store) (value : Pointer)
    (max_size : Z) : option (Checked Pointer) :=
  match load store value with
  | None => None
  | Some pointee => Some (CHECK (size pointee <? max_size) ;;; Returned value)
  end.

End Guards.

End Methods.
Import Methods.

(** ** The seed mixer *)

Module Hashing.

(** [HashMix] of [util/hash/mix.h]: the default-constructed mixer,
    [Mix(size_t)] and [get()]. *)
Class HashMixImpl : Type := {
  HashMix : Type;
  HashMix_ctor : HashMix;
  HashMix_Mix : HashMix -> Z -> HashMix;
  HashMix_get : HashMix -> Z
}.

Section CustomHashMix.
Context `{HashMixImpl}.

(** [for (const NumberT number : numbers) mix.Mix(static_cast<size_t>(number));] *)
Fixpoint CustomHashMix_loop (numbers : list Z) (mix : HashMix) : HashMix :=
  match numbers with
  | [] => mix
  | number :: numbers' =>
      CustomHashMix_loop numbers' (HashMix_Mix mix (convert size_t number))
  end.

(** [template<typename NumberT> NumberT CustomHashMix(const std::vector<NumberT>&)];
    [return mix.get();] converts to [NumberT]. *)
Definition CustomHashMix (NumberT : IntType) (numbers : list Z) : Z :=
  let mix := HashMix_ctor in
  let mix := CustomHashMix_loop numbers mix in
  convert NumberT (HashMix_get mix).

(** [template<typename NumberT> NumberT CustomHashMix(NumberT first, NumberT second)] *)
Definition CustomHashMix_pair (NumberT : IntType) (first second : Z) : Z :=
  CustomHashMix NumberT [first; second].

(** The accumulator once every number went through [Mix], in order. *)
Definition mixed (numbers : list Z) : HashMix :=
  fold_left (fun mix number => HashMix_Mix mix (convert size_t number))
    numbers HashMix_ctor.

End CustomHashMix.

End Hashing.
Import Hashing.

(** ** Print and Flush *)

Module Debug.

(** What is streamed into a [Print]: a value, given by the text that
    [stream_ << component] appends for it, or a [Flush]. *)
Inductive Component : Type :=
| Printed (text : string)
| Flush.

Record Print : Type := MkPrint { stream_ : ostringstream }.

(** [Print() { stream_ << "DEBUG: "; }] *)
Definition Print_ctor : Print :=
  let stream_ : ostringstream := EmptyString in
  MkPrint (stream_ << "DEBUG: "%string).

(** The two [operator<<] of [Print], on the object and on what
    [std::cout] has received so far. *)
Definition Print_shift (state : Print * string) (component : Component)
    : Print * string :=
  let '(print, cout) := state in
  match component with
  | Printed text => (MkPrint (stream_ print << text), cout)
  | Flush => (print, cout << stream_ print << newline)
  end.

(** [Print() << c1 << ... << cn;] *)
Definition Print_chain (cout : string) (components : list Component)
    : Print * string :=
  fold_left Print_shift components (Print_ctor, cout).

(** The texts streamed in, in order, without the flushes. *)
Fixpoint streamed_text (components : list Component) : string :=
  match components with
  | [] => EmptyString
  | Printed text :: components' => (text ++ streamed_text components')%string
  | Flush :: components' => streamed_text components'
  end.

Definition has_Flush (components : list Component) : bool :=
  existsb (fun c => match c with Flush => true | Printed _ => false end)
    components.

End Debug.
Import Debug.

(** ** Instances to run the definitions on *)

Module Samples.

(** Scalars that are whole numbers, printed in decimal. *)
Definition decimal_printer : DoublePrinter Z :=
  {| print_double x := DecimalString.NilZero.string_of_int (Z.to_int x) |}.

(** An enum of three operations, numbered 0, 1 and 2. *)
Inductive ThreeOps : Type :=
| NO_OP
| SCALAR_SUM_OP
| SCALAR_DIFF_OP
| unnamed_op (value : Z).

Definition three_ops : OpEnum :=
  {| Op := ThreeOps;
     Op_IsValid value := (0 <=? value) && (value <=? 2);
     static_cast_Op value :=
       if value =? 0 then NO_OP
       else if value =? 1 then SCALAR_SUM_OP
       else if value =? 2 then SCALAR_DIFF_OP
       else unnamed_op value |}.

(** Addition in unbounded precision, checked against the result type; on
    overflow the wrapped sum is what the result holds. *)
Definition exact_SafeAdd : SafeIntOps :=
  {| SafeAdd R a b :=
       if representable R (a + b) then (true, a + b)
       else (false, convert R (a + b)) |}.

(** A mixer that adds its input to a 64-bit accumulator. *)
Definition additive_mixer : HashMixImpl :=
  {| HashMix := Z;
     HashMix_ctor := 1;
     HashMix_Mix hash val := (hash + val) mod 2 ^ 64;
     HashMix_get hash := hash |}.

Definition rotate_left_64 (x k : Z) : Z :=
  Z.lor (Z.shiftl x k mod 2 ^ 64) (Z.shiftr x (64 - k)).

(** A mixer that multiplies its 64-bit accumulator by an odd constant,
    rotates it and adds its input. *)
Definition rotating_mixer : HashMixImpl :=
  {| HashMix := Z;
     HashMix_ctor := 1;
     HashMix_Mix hash val :=
       (rotate_left_64 ((hash * 0xdc3eb94af8ab4c93) mod 2 ^ 64) 19 + val) mod 2 ^ 64;
     HashMix_get hash := hash |}.

End Samples.
Import Samples.


(* ===================================================================== *)
(** * Part II: theorems *)
(* ===================================================================== *)

(** ** CHECK followed by a return *)

Lemma CHECK_then_return {A : Type} (cond : bool) (a : A) :
  ((CHECK cond ;;; Returned a) = Returned a <-> cond = true) /\
  ((CHECK cond ;;; Returned a) = CheckFailed <-> cond = false).
Proof.
  destruct cond; simpl; split; split; intro E;
    solve [ reflexivity | discriminate E ].
Qed.

Lemma CHECK_passes {A : Type} (cond : bool) (k : Checked A) :
  cond = true -> (CHECK cond ;;; k) = k.
Proof. intros ->. reflexivity. Qed.

Lemma CHECK_aborts {A : Type} (cond : bool) (k : Checked A) :
  cond = false -> (CHECK cond ;;; k) = CheckFailed.
Proof. intros ->. reflexivity. Qed.

(** ** Ranges and conversions *)

(** Closes [in_range T v] for a concrete type and number. *)
Ltac range_by_computation := unfold in_range; cbn; lia.

Lemma representable_iff (T : IntType) (v : Z) :
  representable T v = true <-> in_range T v.
Proof.
  unfold representable, in_range.
  rewrite andb_true_iff, !Z.leb_le. tauto.
Qed.

Lemma representable_false_iff (T : IntType) (v : Z) :
  representable T v = false <-> ~ in_range T v.
Proof.
  rewrite <- representable_iff.
  destruct (representable T v); split; congruence.
Qed.

Lemma in_range_dec (T : IntType) (v : Z) : {in_range T v} + {~ in_range T v}.
Proof.
  destruct (representable T v) eqn:E.
  - left. now apply representable_iff.
  - right. now apply representable_false_iff.
Qed.

Lemma convert_unsigned (T : IntType) (v : Z) :
  is_signed T = false -> convert T v = v mod 2 ^ width T.
Proof. intros Hu. unfold convert. rewrite Hu. reflexivity. Qed.

Lemma convert_unsigned_in_range (T : IntType) (v : Z) :
  is_signed T = false -> 0 <= width T -> in_range T (convert T v).
Proof.
  intros Hu Hw. rewrite (convert_unsigned T v Hu).
  unfold in_range, min_value, max_value. rewrite Hu.
  assert (0 < 2 ^ width T) by (apply Z.pow_pos_nonneg; lia).
  pose proof (Z.mod_pos_bound v (2 ^ width T)). lia.
Qed.

Lemma convert_unsigned_id (T : IntType) (v : Z) :
  is_signed T = false -> in_range T v -> convert T v = v.
Proof.
  intros Hu Hr. rewrite (convert_unsigned T v Hu).
  unfold in_range, min_value, max_value in Hr. rewrite Hu in Hr.
  apply Z.mod_small. lia.
Qed.

(** ** Reserved addresses *)

(** C6.  The reserved addresses have their conventional values: scalar
    label 0 and prediction 1; vector features 0, label 1 and prediction 2;
    first matrix output 0. *)
Theorem reserved_addresses_conventional :
  kLabelsScalarAddress = 0 /\
  kPredictionsScalarAddress = 1 /\
  kFeaturesVectorAddress = 0 /\
  kLabelsVectorAddress = 1 /\
  kPredictionsVectorAddress = 2 /\
  kFirstOutMatrixAddress = 0.
Proof.
  unfold kLabelsScalarAddress, kPredictionsScalarAddress,
    kFeaturesVectorAddress, kLabelsVectorAddress,
    kPredictionsVectorAddress, kFirstOutMatrixAddress, constexpr_AddressT.
  repeat apply conj; apply convert_unsigned_id;
    solve [ reflexivity | range_by_computation ].
Qed.

Lemma default_capacities :
  kMaxScalarAddresses default_flags = 20 /\
  kMaxVectorAddresses default_flags = 20 /\
  kMaxMatrixAddresses default_flags = 20.
Proof.
  unfold kMaxScalarAddresses, kMaxVectorAddresses, kMaxMatrixAddresses,
    constexpr_AddressT, MAX_SCALAR_ADDRESSES, MAX_VECTOR_ADDRESSES,
    MAX_MATRIX_ADDRESSES, default_flags, ifndef_define; cbn [D_MAX_SCALAR_ADDRESSES
    D_MAX_VECTOR_ADDRESSES D_MAX_MATRIX_ADDRESSES].
  repeat apply conj; apply convert_unsigned_id;
    solve [ reflexivity | range_by_computation ].
Qed.

(** C9.  With no capacity flag given, every named reserved address is
    strictly below the capacity of its space (20 in each space). *)
Theorem reserved_addresses_below_default_capacity :
  kLabelsScalarAddress < kMaxScalarAddresses default_flags /\
  kPredictionsScalarAddress < kMaxScalarAddresses default_flags /\
  kFeaturesVectorAddress < kMaxVectorAddresses default_flags /\
  kLabelsVectorAddress < kMaxVectorAddresses default_flags /\
  kPredictionsVectorAddress < kMaxVectorAddresses default_flags /\
  kFirstOutMatrixAddress < kMaxMatrixAddresses default_flags /\
  kMaxScalarAddresses default_flags = 20 /\
  kMaxVectorAddresses default_flags = 20 /\
  kMaxMatrixAddresses default_flags = 20.
Proof.
  destruct reserved_addresses_conventional as (-> & -> & -> & -> & -> & ->).
  destruct default_capacities as (-> & -> & ->).
  repeat apply conj; solve [ lia | reflexivity ].
Qed.

(** A capacity passed on the command line keeps the reserved addresses
    addressable as long as it is an [AddressT] above them. *)
Lemma reserved_addresses_below_capacity (f : BuildFlags) :
  2 <= MAX_SCALAR_ADDRESSES f <= 65535 ->
  3 <= MAX_VECTOR_ADDRESSES f <= 65535 ->
  1 <= MAX_MATRIX_ADDRESSES f <= 65535 ->
  kPredictionsScalarAddress < kMaxScalarAddresses f /\
  kPredictionsVectorAddress < kMaxVectorAddresses f /\
  kFirstOutMatrixAddress < kMaxMatrixAddresses f.
Proof.
  intros Hs Hv Hm.
  destruct reserved_addresses_conventional as (_ & -> & _ & _ & -> & ->).
  unfold kMaxScalarAddresses, kMaxVectorAddresses, kMaxMatrixAddresses,
    constexpr_AddressT.
  rewrite !convert_unsigned_id by solve [ reflexivity | range_by_computation ].
  lia.
Qed.

(** The flag decides: a vector capacity of 2 leaves the prediction slot
    outside the space. *)
Example small_vector_capacity :
  kMaxVectorAddresses (MkBuildFlags None (Some 2) None) = 2 /\
  ~ kPredictionsVectorAddress < kMaxVectorAddresses (MkBuildFlags None (Some 2) None).
Proof. split; [reflexivity | cbv; discriminate]. Qed.

(** ** SafeCast *)

Lemma exact_SafeAdd_contract : SafeAdd_contract exact_SafeAdd.
Proof.
  intros R a b. cbn. split; intros Hr.
  - apply representable_iff in Hr. rewrite Hr. reflexivity.
  - apply representable_false_iff in Hr. rewrite Hr. reflexivity.
Qed.

Section SafeCastFacts.
Context (ops : SafeIntOps) (contract : SafeAdd_contract ops).

Lemma SafeCast_in_range (InT OutT : IntType) (value : Z) :
  in_range OutT value -> SafeCast InT OutT value = Returned value.
Proof.
  intros Hr. unfold SafeCast.
  destruct (contract OutT value 0) as [Hfit _].
  rewrite Z.add_0_r in Hfit. rewrite (Hfit Hr). reflexivity.
Qed.

Lemma SafeCast_out_of_range (InT OutT : IntType) (value : Z) :
  ~ in_range OutT value -> SafeCast InT OutT value = CheckFailed.
Proof.
  intros Hr. unfold SafeCast.
  destruct (contract OutT value 0) as [_ Hover].
  rewrite Z.add_0_r in Hover. specialize (Hover Hr).
  destruct (SafeAdd OutT value 0) as [ok result]. cbn in Hover. subst ok.
  reflexivity.
Qed.

(** Whatever [SafeCast] returns is its argument: no other number comes
    out of it. *)
Lemma SafeCast_returns_only_value (InT OutT : IntType) (value r : Z) :
  SafeCast InT OutT value = Returned r -> r = value /\ in_range OutT value.
Proof.
  intros E. destruct (in_range_dec OutT value) as [Hr | Hr].
  - rewrite (SafeCast_in_range InT OutT value Hr) in E.
    injection E as <-. now split.
  - rewrite (SafeCast_out_of_range InT OutT value Hr) in E. discriminate E.
Qed.

End SafeCastFacts.

(** C1.  Provided [SafeAdd] keeps the contract of its header, [SafeCast]
    returns its argument unchanged when the target type can hold it, and
    for every argument outside the range of the target type the CHECK
    fails; in no case does a different (truncated or wrapped) number come
    back. *)
Theorem SafeCast_exact (ops : SafeIntOps) (contract : SafeAdd_contract ops)
    (InT OutT : IntType) (value : Z) :
  (in_range OutT value -> SafeCast InT OutT value = Returned value) /\
  (~ in_range OutT value -> SafeCast InT OutT value = CheckFailed) /\
  (forall r : Z, SafeCast InT OutT value = Returned r -> r = value).
Proof.
  split; [| split].
  - now apply SafeCast_in_range.
  - now apply SafeCast_out_of_range.
  - intros r E.
    now destruct (SafeCast_returns_only_value ops contract InT OutT value r E).
Qed.

Lemma SafeCast_exact_witness :
  @SafeCast exact_SafeAdd IntegerT RandomSeedT 5 = Returned 5 /\
  @SafeCast exact_SafeAdd IntegerT RandomSeedT (-1) = CheckFailed /\
  @SafeCast exact_SafeAdd IntegerT RandomSeedT (2 ^ 32) = CheckFailed /\
  @SafeCast exact_SafeAdd IntegerT AddressT 65535 = Returned 65535.
Proof.
  split; [| split; [| split]].
  - apply (SafeCast_exact exact_SafeAdd exact_SafeAdd_contract IntegerT RandomSeedT 5).
    range_by_computation.
  - apply (SafeCast_exact exact_SafeAdd exact_SafeAdd_contract IntegerT RandomSeedT (-1)).
    range_by_computation.
  - apply (SafeCast_exact exact_SafeAdd exact_SafeAdd_contract IntegerT RandomSeedT (2 ^ 32)).
    range_by_computation.
  - apply (SafeCast_exact exact_SafeAdd exact_SafeAdd_contract IntegerT AddressT 65535).
    range_by_computation.
Defined.

(** ** ConvertToOps *)

Section ConvertToOpsFacts.
Context `{OpEnum}.

(** The loop either appends the converted rest to what it holds, or stops
    at the first invalid value. *)
Lemma ConvertToOps_loop_spec (values : list Z) :
  forall converted_values : list Op,
    ConvertToOps_loop values converted_values =
    if forallb Op_IsValid values
    then Returned (converted_values ++ map static_cast_Op values)
    else CheckFailed.
Proof.
  induction values as [| value values' IH]; intros converted_values; cbn.
  - now rewrite app_nil_r.
  - destruct (Op_IsValid value); cbn; [| reflexivity].
    rewrite IH. unfold push_back. now rewrite <- app_assoc.
Qed.

Lemma ConvertToOps_spec (values : list Z) :
  ConvertToOps values =
  if forallb Op_IsValid values then Returned (map static_cast_Op values)
  else CheckFailed.
Proof. unfold ConvertToOps. now rewrite ConvertToOps_loop_spec. Qed.

Lemma all_valid_forallb (values : list Z) :
  Forall (fun value => Op_IsValid value = true) values <->
  forallb Op_IsValid values = true.
Proof. rewrite forallb_forall, Forall_forall. reflexivity. Qed.

Lemma some_invalid_forallb (values : list Z) :
  Exists (fun value => Op_IsValid value = false) values <->
  forallb Op_IsValid values = false.
Proof.
  induction values as [| value values' IH]; cbn.
  - split; [intros E; inversion E | discriminate].
  - rewrite Exists_cons, IH, andb_false_iff. reflexivity.
Qed.

End ConvertToOpsFacts.

(** C4.  When every element of the input is a valid opcode, ConvertToOps
    returns a list of the same length whose i-th element is the Op of the
    i-th input integer; when some element is not a valid opcode, the
    CHECK fails and nothing is returned. *)
Theorem ConvertToOps_validates (E : OpEnum) (values : list Z) :
  (Forall (fun value => Op_IsValid value = true) values ->
   exists ops : list Op,
     ConvertToOps values = Returned ops /\
     List.length ops = List.length values /\
     forall (i : nat) (value : Z),
       nth_error values i = Some value ->
       nth_error ops i = Some (static_cast_Op value)) /\
  (Exists (fun value => Op_IsValid value = false) values ->
   ConvertToOps values = CheckFailed).
Proof.
  split.
  - intros Hall. exists (map static_cast_Op values).
    apply all_valid_forallb in Hall.
    rewrite ConvertToOps_spec, Hall. split; [reflexivity | split].
    + apply length_map.
    + intros i value Hi. now rewrite nth_error_map, Hi.
  - intros Hsome. apply some_invalid_forallb in Hsome.
    now rewrite ConvertToOps_spec, Hsome.
Qed.

Lemma ConvertToOps_validates_witness :
  (exists ops : list ThreeOps,
     @ConvertToOps three_ops [0; 2; 1] = Returned ops /\
     List.length ops = 3%nat /\
     forall (i : nat) (value : Z),
       nth_error [0; 2; 1] i = Some value ->
       nth_error ops i = Some (@static_cast_Op three_ops value)) /\
  @ConvertToOps three_ops [0; 3; 1] = CheckFailed.
Proof.
  split.
  - apply (ConvertToOps_validates three_ops [0; 2; 1]).
    repeat constructor.
  - apply (ConvertToOps_validates three_ops [0; 3; 1]).
    apply Exists_cons_tl, Exists_cons_hd. reflexivity.
Defined.

(** ** The OrDie guards *)

Lemma PositiveOrDie_IntegerT (value : Z) :
  (PositiveOrDie value = Returned value <-> 0 < value) /\
  (PositiveOrDie value = CheckFailed <-> value <= 0).
Proof.
  unfold PositiveOrDie. cbn [greater value_init Numeric_IntegerT].
  destruct (CHECK_then_return (value >? 0) value) as [Hret Hfail].
  rewrite Hret, Hfail, Z.gtb_ltb, Z.ltb_lt, Z.ltb_ge. tauto.
Qed.

Lemma is_null_false_iff (p : Pointer) : is_null p = false <-> p <> nullptr.
Proof. destruct p; cbn; split; congruence. Qed.

Lemma is_null_true_iff (p : Pointer) : is_null p = true <-> p = nullptr.
Proof. destruct p; cbn; split; congruence. Qed.

Section GuardFacts.
Context {ContainerT : Type} `{Container ContainerT}.

Lemma NonEmptyOrDie_ptr_spec (store : Store) (p : Pointer) (pointee : ContainerT) :
  load store p = Some pointee ->
  (NonEmptyOrDie_ptr store p = Some (Returned p) <-> empty pointee = false) /\
  (NonEmptyOrDie_ptr store p = Some CheckFailed <-> empty pointee = true).
Proof.
  intros Hload. unfold NonEmptyOrDie_ptr. rewrite Hload.
  destruct (empty pointee); cbn; split; split; intros E;
    solve [ reflexivity | discriminate E ].
Qed.

Lemma SizeLessThanOrDie_ptr_spec (store : Store) (p : Pointer)
    (pointee : ContainerT) (max_size : Z) :
  load store p = Some pointee ->
  (SizeLessThanOrDie_ptr store p max_size = Some (Returned p) <->
   size pointee < max_size) /\
  (SizeLessThanOrDie_ptr store p max_size = Some CheckFailed <->
   max_size <= size pointee).
Proof.
  intros Hload. unfold SizeLessThanOrDie_ptr. rewrite Hload.
  destruct (Z.ltb_spec (size pointee) max_size) as [Hlt | Hge]; cbn;
    split; split; intros E; solve [ reflexivity | discriminate E | lia ].
Qed.

End GuardFacts.

(** C5.  Each guard returns its argument unchanged exactly when its
    condition holds and fails its CHECK exactly when it does not:
    PositiveOrDie on "greater than the value-initialised NumericT",
    NotNullOrDie on "not the null pointer", NonEmptyOrDie on "not empty"
    and SizeLessThanOrDie on "size strictly below max_size"; the overloads
    on a pointer to a container test the container pointed to and return
    the pointer. *)
Theorem OrDie_guards_exact (NumericT : Type) (N : Numeric NumericT)
    (ContainerT : Type) (C : Container ContainerT)
    (v : NumericT) (p : Pointer) (c : ContainerT) (max_size : Z) :
  (PositiveOrDie v = Returned v <-> greater v value_init = true) /\
  (PositiveOrDie v = CheckFailed <-> greater v value_init = false) /\
  (NotNullOrDie p = Returned p <-> p <> nullptr) /\
  (NotNullOrDie p = CheckFailed <-> p = nullptr) /\
  (NonEmptyOrDie c = Returned c <-> empty c = false) /\
  (NonEmptyOrDie c = CheckFailed <-> empty c = true) /\
  (SizeLessThanOrDie c max_size = Returned c <-> size c < max_size) /\
  (SizeLessThanOrDie c max_size = CheckFailed <-> max_size <= size c) /\
  (forall store : Store,
     load store p = Some c ->
     (NonEmptyOrDie_ptr store p = Some (Returned p) <-> empty c = false) /\
     (NonEmptyOrDie_ptr store p = Some CheckFailed <-> empty c = true) /\
     (SizeLessThanOrDie_ptr store p max_size = Some (Returned p) <->
      size c < max_size) /\
     (SizeLessThanOrDie_ptr store p max_size = Some CheckFailed <->
      max_size <= size c)).
Proof.
  unfold PositiveOrDie, NotNullOrDie, NonEmptyOrDie, SizeLessThanOrDie.
  destruct (CHECK_then_return (greater v value_init) v) as [Hpos Hnonpos].
  destruct (CHECK_then_return (negb (is_null p)) p) as [Hnn Hnull].
  destruct (CHECK_then_return (negb (empty c)) c) as [Hne Hemp].
  destruct (CHECK_then_return (size c <? max_size) c) as [Hlt Hge].
  rewrite Hpos, Hnonpos, Hnn, Hnull, Hne, Hemp, Hlt, Hge.
  rewrite negb_true_iff, !negb_false_iff, negb_true_iff, Z.ltb_lt, Z.ltb_ge.
  rewrite is_null_false_iff, is_null_true_iff.
  repeat apply conj; try tauto.
  intros store Hload.
  destruct (NonEmptyOrDie_ptr_spec store p c Hload) as [H1 H2].
  destruct (SizeLessThanOrDie_ptr_spec store p c max_size Hload) as [H3 H4].
  tauto.
Qed.

Lemma OrDie_guards_exact_witness :
  PositiveOrDie 3 = Returned 3 /\
  PositiveOrDie 0 = CheckFailed /\
  NotNullOrDie (location 7) = Returned (location 7) /\
  NotNullOrDie nullptr = CheckFailed /\
  NonEmptyOrDie [1; 2] = Returned [1; 2] /\
  NonEmptyOrDie (@nil Z) = CheckFailed /\
  SizeLessThanOrDie [1; 2] 3 = Returned [1; 2] /\
  SizeLessThanOrDie [1; 2] 2 = CheckFailed /\
  NonEmptyOrDie_ptr (fun _ => Some [1; 2]) (location 7) = Some (Returned (location 7)) /\
  SizeLessThanOrDie_ptr (fun _ => Some [1; 2]) (location 7) 2 = Some CheckFailed.
Proof.
  pose proof (OrDie_guards_exact Z Numeric_IntegerT (list Z) Container_vector
                3 (location 7) [1; 2] 3) as Hyes.
  pose proof (OrDie_guards_exact Z Numeric_IntegerT (list Z) Container_vector
                0 nullptr [] 2) as Hno.
  pose proof (OrDie_guards_exact Z Numeric_IntegerT (list Z) Container_vector
                0 (location 7) [1; 2] 2) as Hsmall.
  destruct Hyes as (P & _ & NN & _ & NE & _ & SL & _ & Hptr).
  destruct Hno as (_ & P' & _ & NN' & _ & NE' & _ & _ & _).
  destruct Hsmall as (_ & _ & _ & _ & _ & _ & _ & SL' & Hptr').
  destruct (Hptr (fun _ => Some [1; 2]) eq_refl) as (NEp & _ & _ & _).
  destruct (Hptr' (fun _ => Some [1; 2]) eq_refl) as (_ & _ & _ & SLp).
  repeat apply conj.
  - apply P. reflexivity.
  - apply P'. reflexivity.
  - apply NN. discriminate.
  - apply NN'. reflexivity.
  - apply NE. reflexivity.
  - apply NE'. reflexivity.
  - apply SL. cbn. lia.
  - apply SL'. cbn. lia.
  - apply NEp. reflexivity.
  - apply SLp. cbn. lia.
Defined.

(** ** Rendering *)

Lemma string_app_assoc (a b c : string) :
  ((a ++ b) ++ c = a ++ (b ++ c))%string.
Proof. induction a as [| ch a IH]; cbn; [reflexivity | now rewrite IH]. Qed.

Section RenderingFacts.
Context {Scalar : Type} `{DoublePrinter Scalar}.

(** The coordinate list has one entry per index below [F], in index order. *)
Lemma coords_length (F : Z) (value : Z -> Scalar) :
  List.length (coords F value) = Z.to_nat F.
Proof. unfold coords. now rewrite length_map, length_seq. Qed.

Lemma coords_nth (F : Z) (value : Z -> Scalar) (k : nat) :
  (k < Z.to_nat F)%nat -> nth_error (coords F value) k = Some (value (Z.of_nat k)).
Proof.
  intros Hk. unfold coords.
  rewrite nth_error_map, nth_error_seq.
  destruct (Nat.ltb_spec k (Z.to_nat F)) as [_ | Hge]; [reflexivity | lia].
Qed.

Lemma coords_ext (F : Z) (v w : Z -> Scalar) :
  (forall i, 0 <= i < F -> v i = w i) -> coords F v = coords F w.
Proof.
  intros Hvw. unfold coords. apply map_ext_in. intros k Hk.
  apply in_seq in Hk. apply Hvw. lia.
Qed.

Lemma rows_ext (F : Z) (m n : Z -> Z -> Scalar) :
  (forall i j, 0 <= i < F -> 0 <= j < F -> m i j = n i j) -> rows F m = rows F n.
Proof.
  intros Hmn. unfold rows. apply map_ext_in. intros k Hk.
  apply in_seq in Hk. apply coords_ext. intros j Hj. apply Hmn; lia.
Qed.

(** The inner loop writes, after what the stream holds, the coordinates
    from index [i] on, each followed by a comma and a blank. *)
Lemma VectorToString_loop_spec (value : Z -> Scalar) (todo : nat) :
  forall (i : Z) (message : ostringstream),
    VectorToString_loop value todo i message =
    (message ++
     comma_separated (map (fun k => value (i + Z.of_nat k)) (seq 0 todo)))%string.
Proof.
  induction todo as [| todo' IH]; intros i message.
  - cbn. clear. induction message as [| ch s IHs]; cbn; [reflexivity | now rewrite <- IHs].
  - cbn [VectorToString_loop]. rewrite IH. unfold put.
    cbn [seq]. rewrite <- seq_shift. cbn [map comma_separated]. rewrite map_map.
    rewrite Z.add_0_r, !string_app_assoc.
    rewrite (map_ext (fun k => value (i + 1 + Z.of_nat k))
                     (fun k => value (i + Z.of_nat (S k)))); [reflexivity |].
    intros k. f_equal. lia.
Qed.

Lemma VectorToString_shape (F : Z) (value : Z -> Scalar) :
  VectorToString F value = ("[" ++ comma_separated (coords F value) ++ "]")%string.
Proof.
  unfold VectorToString, put, coords. rewrite VectorToString_loop_spec.
  cbn [String.append]. reflexivity.
Qed.

Lemma MatrixToString_loop_spec (F : Z) (value : Z -> Z -> Scalar) (todo : nat) :
  forall (i : Z) (message : ostringstream),
    MatrixToString_loop F value todo i message =
    (message ++
     bracketed_rows
       (map (fun k => coords F (value (i + Z.of_nat k))) (seq 0 todo)))%string.
Proof.
  induction todo as [| todo' IH]; intros i message.
  - cbn. clear. induction message as [| ch s IHs]; cbn; [reflexivity | now rewrite <- IHs].
  - cbn [MatrixToString_loop]. rewrite IH, VectorToString_loop_spec. unfold put.
    cbn [seq]. rewrite <- seq_shift. cbn [map bracketed_rows]. rewrite map_map.
    rewrite Z.add_0_r, !string_app_assoc.
    rewrite (map_ext (fun k => coords F (value (i + 1 + Z.of_nat k)))
                     (fun k => coords F (value (i + Z.of_nat (S k))))).
    + unfold coords at 2. cbn [Z.add]. reflexivity.
    + intros k. do 2 f_equal. lia.
Qed.

Lemma MatrixToString_shape (F : Z) (value : Z -> Z -> Scalar) :
  MatrixToString F value =
  (newline ++ "[" ++ bracketed_rows (rows F value) ++ "]" ++ newline)%string.
Proof.
  unfold MatrixToString, put, rows. rewrite MatrixToString_loop_spec.
  unfold newline. cbn [String.append]. rewrite ?string_app_assoc. reflexivity.
Qed.

End RenderingFacts.

(** C7.  For every dimension [F], VectorToString and MatrixToString (and
    the ToString overloads, which only call them) yield a text fixed by
    the coordinates alone: an opening bracket, the coordinates in index
    order, each followed by a comma and a blank, and a closing bracket;
    for a matrix, one such bracketed row per line in row order, inside an
    outer pair of brackets on lines of their own.  Two tensors with equal
    coordinates get identical texts. *)
Theorem rendering_ordered_bracketed (Scalar : Type) (P : DoublePrinter Scalar)
    (F : Z) (v w : @Vector Scalar F) (m n : @Matrix Scalar F) :
  (forall i, 0 <= i < F -> v i = w i) ->
  (forall i j, 0 <= i < F -> 0 <= j < F -> m i j = n i j) ->
  VectorToString F v = ("[" ++ comma_separated (coords F v) ++ "]")%string /\
  MatrixToString F m =
    (newline ++ "[" ++ bracketed_rows (rows F m) ++ "]" ++ newline)%string /\
  ToString_Vector F v = VectorToString F v /\
  ToString_Matrix F m = MatrixToString F m /\
  ToString_Vector F v = ToString_Vector F w /\
  ToString_Matrix F m = ToString_Matrix F n.
Proof.
  intros Hvw Hmn. unfold ToString_Vector, ToString_Matrix.
  rewrite !VectorToString_shape, !MatrixToString_shape.
  rewrite (coords_ext F v w Hvw), (rows_ext F m n Hmn).
  repeat apply conj; reflexivity.
Qed.

Lemma rendering_ordered_bracketed_witness :
  @VectorToString Z decimal_printer 3 (fun i => 10 * i - 5) = "[-5, 5, 15, ]"%string /\
  @ToString_Matrix Z decimal_printer 2 (fun i j => 2 * i + j) =
    (newline ++ "[[0, 1, ]," ++ newline ++ "[2, 3, ]," ++ newline ++ "]" ++ newline)%string.
Proof.
  destruct (rendering_ordered_bracketed Z decimal_printer 3
              (fun i => 10 * i - 5) (fun i => 10 * i - 5)
              (fun i j => 2 * i + j) (fun i j => 2 * i + j)
              (fun i _ => eq_refl) (fun i j _ _ => eq_refl))
    as (Hv & _).
  destruct (rendering_ordered_bracketed Z decimal_printer 2
              (fun i => 10 * i - 5) (fun i => 10 * i - 5)
              (fun i j => 2 * i + j) (fun i j => 2 * i + j)
              (fun i _ => eq_refl) (fun i j _ _ => eq_refl))
    as (_ & Hm & _ & Hto & _).
  split.
  - rewrite Hv. reflexivity.
  - rewrite Hto, Hm. reflexivity.
Defined.

(** ** The seed mixer *)

Section CustomHashMixFacts.
Context `{HashMixImpl}.

(** The range-for is a left fold of [Mix] over the numbers. *)
Lemma CustomHashMix_loop_fold (numbers : list Z) :
  forall mix : HashMix,
    CustomHashMix_loop numbers mix =
    fold_left (fun mix number => HashMix_Mix mix (convert size_t number))
      numbers mix.
Proof.
  induction numbers as [| number numbers' IH]; intros mix; cbn;
    [reflexivity | apply IH].
Qed.

Lemma CustomHashMix_mixed (NumberT : IntType) (numbers : list Z) :
  CustomHashMix NumberT numbers = convert NumberT (HashMix_get (mixed numbers)).
Proof. unfold CustomHashMix, mixed. now rewrite CustomHashMix_loop_fold. Qed.

(** Mixing one more number is one more call of [Mix] on the accumulator. *)
Lemma mixed_snoc (numbers : list Z) (number : Z) :
  mixed (numbers ++ [number]) =
  HashMix_Mix (mixed numbers) (convert size_t number).
Proof. unfold mixed. now rewrite fold_left_app. Qed.

(** A number of an unsigned type of at most 64 bits reaches [Mix] as it is. *)
Lemma static_cast_size_t_id (NumberT : IntType) (number : Z) :
  is_signed NumberT = false -> 0 <= width NumberT <= 64 ->
  in_range NumberT number -> convert size_t number = number.
Proof.
  intros Hu Hw Hr. apply convert_unsigned_id; [reflexivity |].
  unfold in_range, min_value, max_value in *. rewrite Hu in Hr. cbn.
  assert (2 ^ width NumberT <= 2 ^ 64) by (apply Z.pow_le_mono_r; lia).
  lia.
Qed.

End CustomHashMixFacts.

(** C2.  The two-argument form returns what the sequence form returns on
    the two-element sequence of its arguments, namely the converted
    accumulator after mixing the first and then the second. *)
Theorem CustomHashMix_pair_is_sequence (M : HashMixImpl) (NumberT : IntType)
    (first second : Z) :
  CustomHashMix_pair NumberT first second = CustomHashMix NumberT [first; second] /\
  CustomHashMix NumberT [first; second] =
    convert NumberT
      (HashMix_get
         (HashMix_Mix (HashMix_Mix HashMix_ctor (convert size_t first))
            (convert size_t second))).
Proof.
  split.
  - unfold CustomHashMix_pair. reflexivity.
  - rewrite CustomHashMix_mixed. reflexivity.
Qed.

(** C8.  At [RandomSeedT], CustomHashMix returns the value of the HashMix
    accumulator reduced modulo 2^32, that is its low 32 bits, on every
    input sequence; the result is always a value of [RandomSeedT], and no
    CHECK stands between the accumulator and the result. *)
Theorem CustomHashMix_RandomSeedT_truncates (M : HashMixImpl) (numbers : list Z) :
  CustomHashMix RandomSeedT numbers = HashMix_get (mixed numbers) mod 2 ^ 32 /\
  CustomHashMix RandomSeedT numbers =
    Z.land (HashMix_get (mixed numbers)) (Z.ones 32) /\
  in_range RandomSeedT (CustomHashMix RandomSeedT numbers).
Proof.
  rewrite CustomHashMix_mixed.
  split; [| split].
  - apply convert_unsigned. reflexivity.
  - rewrite Z.land_ones by lia. apply convert_unsigned. reflexivity.
  - apply convert_unsigned_in_range; [reflexivity | cbn; lia].
Qed.

(** C10.  On the empty sequence CustomHashMix runs no [Mix] and no CHECK:
    it returns the converted [get()] of the default-constructed HashMix,
    one fixed value for each number type. *)
Theorem CustomHashMix_empty (M : HashMixImpl) (NumberT : IntType) :
  CustomHashMix NumberT [] = convert NumberT (HashMix_get HashMix_ctor) /\
  mixed [] = HashMix_ctor /\
  CustomHashMix RandomSeedT [] = HashMix_get HashMix_ctor mod 2 ^ 32.
Proof.
  split; [| split].
  - unfold CustomHashMix. cbn [CustomHashMix_loop]. reflexivity.
  - unfold mixed. cbn [fold_left]. reflexivity.
  - rewrite CustomHashMix_mixed. apply convert_unsigned. reflexivity.
Qed.

(** Whether swapping two inputs changes the result is decided by the
    mixer, which the header does not define: the rotating mixer tells
    [1; 2] from [2; 1], the additive one tells no pair from its swap. *)
Lemma order_sensitivity_depends_on_mixer :
  @CustomHashMix rotating_mixer RandomSeedT [1; 2] <>
  @CustomHashMix rotating_mixer RandomSeedT [2; 1] /\
  (forall a b : Z,
     @CustomHashMix additive_mixer RandomSeedT [a; b] =
     @CustomHashMix additive_mixer RandomSeedT [b; a]).
Proof.
  split.
  - vm_compute. discriminate.
  - intros a b. rewrite !CustomHashMix_mixed. unfold mixed.
    cbn [fold_left additive_mixer HashMix_Mix HashMix_get HashMix_ctor].
    f_equal. rewrite !Zplus_mod_idemp_l. f_equal. lia.
Qed.

(* ===================================================================== *)
(** * Part III: further properties of the header *)
(* ===================================================================== *)

(** ** Capacities under build flags *)



(** ** SafeCast between types *)

Section SafeCastChains.
Context (ops : SafeIntOps) (contract : SafeAdd_contract ops).

Lemma SafeCast_cases (InT OutT : IntType) (value : Z) :
  (in_range OutT value /\ SafeCast InT OutT value = Returned value) \/
  (~ in_range OutT value /\ SafeCast InT OutT value = CheckFailed).
Proof.
  destruct (in_range_dec OutT value) as [Hr | Hr]; [left | right]; split; trivial.
  - now apply (SafeCast_in_range ops contract).
  - now apply (SafeCast_out_of_range ops contract).
Qed.

End SafeCastChains.

(** X2.  A cast into a type whose range contains the range of the source type
    never fails: it returns its argument. *)
Theorem SafeCast_widening (ops : SafeIntOps) (InT OutT : IntType) (value : Z) :
  SafeAdd_contract ops ->
  min_value OutT <= min_value InT ->
  max_value InT <= max_value OutT ->
  in_range InT value ->
  SafeCast InT OutT value = Returned value.
Proof.
  intros contract Hmin Hmax Hr. apply (SafeCast_in_range ops contract).
  unfold in_range in *. lia.
Qed.

Lemma SafeCast_widening_witness :
  @SafeCast exact_SafeAdd AddressT IntegerT 65535 = Returned 65535 /\
  @SafeCast exact_SafeAdd RandomSeedT IntegerT (2 ^ 32 - 1) = Returned (2 ^ 32 - 1).
Proof.
  split.
  - apply (SafeCast_widening exact_SafeAdd AddressT IntegerT 65535
             exact_SafeAdd_contract);
      unfold in_range, min_value, max_value; cbn; lia.
  - apply (SafeCast_widening exact_SafeAdd RandomSeedT IntegerT (2 ^ 32 - 1)
             exact_SafeAdd_contract);
      unfold in_range, min_value, max_value; cbn; lia.
Defined.

(** X3.  Casting through an intermediate type gives the direct cast whenever
    it returns at all, and is the direct cast when the intermediate type
    can hold the value; it can only fail more often. *)
Theorem SafeCast_through (ops : SafeIntOps) (A B C : IntType) (value : Z) :
  SafeAdd_contract ops ->
  (forall r : Z,
     (r' <- SafeCast A B value ;; SafeCast B C r') = Returned r ->
     SafeCast A C value = Returned r) /\
  (in_range B value ->
   (r' <- SafeCast A B value ;; SafeCast B C r') = SafeCast A C value) /\
  (~ in_range B value ->
   (r' <- SafeCast A B value ;; SafeCast B C r') = CheckFailed).
Proof.
  intros contract.
  destruct (SafeCast_cases ops contract A B value) as [[HB EB] | [HB EB]];
    rewrite EB; cbn [bind].
  - destruct (SafeCast_cases ops contract B C value) as [[HC EC] | [HC EC]];
      rewrite EC.
    + rewrite (SafeCast_in_range ops contract A C value HC).
      repeat apply conj; [trivial | reflexivity | tauto].
    + rewrite (SafeCast_out_of_range ops contract A C value HC).
      repeat apply conj; [trivial | reflexivity | tauto].
  - repeat apply conj; [discriminate | tauto | reflexivity].
Qed.

Lemma SafeCast_through_witness :
  (r' <- @SafeCast exact_SafeAdd IntegerT AddressT 70000 ;;
   @SafeCast exact_SafeAdd AddressT RandomSeedT r') = CheckFailed /\
  @SafeCast exact_SafeAdd IntegerT RandomSeedT 70000 = Returned 70000 /\
  (r' <- @SafeCast exact_SafeAdd IntegerT RandomSeedT 70000 ;;
   @SafeCast exact_SafeAdd RandomSeedT IntegerT r') =
  @SafeCast exact_SafeAdd IntegerT IntegerT 70000.
Proof.
  split; [| split].
  - apply (SafeCast_through exact_SafeAdd IntegerT AddressT RandomSeedT 70000
             exact_SafeAdd_contract).
    range_by_computation.
  - reflexivity.
  - apply (SafeCast_through exact_SafeAdd IntegerT RandomSeedT IntegerT 70000
             exact_SafeAdd_contract).
    range_by_computation.
Defined.

(** X4.  A value of the source type that survives the cast comes back
    unchanged from the cast in the other direction. *)
Theorem SafeCast_round_trip (ops : SafeIntOps) (InT OutT : IntType) (value r : Z) :
  SafeAdd_contract ops ->
  in_range InT value ->
  SafeCast InT OutT value = Returned r ->
  SafeCast OutT InT r = Returned value.
Proof.
  intros contract Hin E.
  destruct (SafeCast_returns_only_value ops contract InT OutT value r E) as [-> _].
  now apply (SafeCast_in_range ops contract).
Qed.

Lemma SafeCast_round_trip_witness :
  @SafeCast exact_SafeAdd RandomSeedT IntegerT 4000000000 = Returned 4000000000.
Proof.
  apply (SafeCast_round_trip exact_SafeAdd IntegerT RandomSeedT
           4000000000 4000000000 exact_SafeAdd_contract).
  - range_by_computation.
  - reflexivity.
Defined.

(** ** ConvertToOps on concatenated input *)

(** X5.  Converting a concatenation is converting the two parts in turn and
    concatenating the results: it fails as soon as either part fails, and
    an invalid value anywhere makes the whole conversion fail. *)
Theorem ConvertToOps_app (E : OpEnum) (values more : list Z) :
  ConvertToOps (values ++ more) =
  (ops <- ConvertToOps values ;;
   ops' <- ConvertToOps more ;;
   Returned (ops ++ ops')).
Proof.
  rewrite !ConvertToOps_spec, forallb_app.
  destruct (forallb Op_IsValid values); cbn [andb bind]; [| reflexivity].
  destruct (forallb Op_IsValid more); cbn [bind]; [| reflexivity].
  now rewrite map_app.
Qed.

(** X6.  What ConvertToOps returns is never partial: a returned list comes
    from an input whose values are all valid, and it is the input
    converted value by value. *)
Theorem ConvertToOps_returns_only_all (E : OpEnum) (values : list Z)
    (ops : list Op) :
  ConvertToOps values = Returned ops ->
  Forall (fun value => Op_IsValid value = true) values /\
  ops = map static_cast_Op values.
Proof.
  rewrite ConvertToOps_spec. intros Hret.
  destruct (forallb Op_IsValid values) eqn:Hall; [| discriminate Hret].
  injection Hret as <-. split; [| reflexivity].
  now apply all_valid_forallb.
Qed.

Lemma ConvertToOps_returns_only_all_witness :
  Forall (fun value => @Op_IsValid three_ops value = true) [2; 0] /\
  [SCALAR_DIFF_OP; NO_OP] = map (@static_cast_Op three_ops) [2; 0].
Proof.
  apply (ConvertToOps_returns_only_all three_ops [2; 0] [SCALAR_DIFF_OP; NO_OP]).
  reflexivity.
Defined.

(** ** Chains of guards *)

Section GuardChains.
Context {ContainerT : Type} `{Container ContainerT}.

Lemma NonEmptyOrDie_cases (c : ContainerT) :
  NonEmptyOrDie c = if empty c then CheckFailed else Returned c.
Proof. unfold NonEmptyOrDie. now destruct (empty c). Qed.

Lemma SizeLessThanOrDie_cases (c : ContainerT) (max_size : Z) :
  SizeLessThanOrDie c max_size =
  if size c <? max_size then Returned c else CheckFailed.
Proof. unfold SizeLessThanOrDie. now destruct (size c <? max_size). Qed.

End GuardChains.

(** X7.  The two container guards can be chained in either order and repeated:
    the chain returns the container exactly when it is non-empty and its
    size is below the bound, and fails otherwise. *)
Theorem container_guards_chain (ContainerT : Type) (C : Container ContainerT)
    (c : ContainerT) (max_size : Z) :
  (c' <- NonEmptyOrDie c ;; SizeLessThanOrDie c' max_size) =
  (c' <- SizeLessThanOrDie c max_size ;; NonEmptyOrDie c') /\
  (c' <- NonEmptyOrDie c ;; NonEmptyOrDie c') = NonEmptyOrDie c /\
  (c' <- SizeLessThanOrDie c max_size ;; SizeLessThanOrDie c' max_size) =
  SizeLessThanOrDie c max_size /\
  ((c' <- NonEmptyOrDie c ;; SizeLessThanOrDie c' max_size) = Returned c <->
   empty c = false /\ size c < max_size).
Proof.
  rewrite !NonEmptyOrDie_cases, !SizeLessThanOrDie_cases.
  destruct (empty c) eqn:He; destruct (Z.ltb_spec (size c) max_size) as [Hlt | Hge];
    cbn [bind]; rewrite ?NonEmptyOrDie_cases, ?SizeLessThanOrDie_cases, ?He;
    try (destruct (Z.ltb_spec (size c) max_size); [| lia]);
    try (destruct (Z.ltb_spec (size c) max_size); [lia |]);
    repeat apply conj; try reflexivity; try (intros [? ?]); try intros ?;
    try discriminate; try lia; try (split; [reflexivity | assumption]).
Qed.

(** X8.  For a [std::vector] and a [std::string], a bound of 0 can never be
    met, and a bound of 1 is met exactly by the containers that
    NonEmptyOrDie rejects. *)
Theorem vector_string_size_bounds (A : Type) (v : list A) (s : string) :
  SizeLessThanOrDie v 0 = CheckFailed /\
  SizeLessThanOrDie s 0 = CheckFailed /\
  (SizeLessThanOrDie v 1 = Returned v <-> NonEmptyOrDie v = CheckFailed) /\
  (SizeLessThanOrDie s 1 = Returned s <-> NonEmptyOrDie s = CheckFailed) /\
  (NonEmptyOrDie v = Returned v <-> 0 < size v) /\
  (NonEmptyOrDie s = Returned s <-> 0 < size s).
Proof.
  rewrite !NonEmptyOrDie_cases, !SizeLessThanOrDie_cases.
  destruct v as [| a v']; destruct s as [| ch s'];
    cbn [empty size Container_vector Container_string List.length String.length];
    repeat match goal with
           | |- context [Z.of_nat ?n <? ?m] =>
               destruct (Z.ltb_spec (Z.of_nat n) m); try lia
           end;
    repeat apply conj; try reflexivity; try intros ?; try discriminate;
    try lia.
Qed.

(** ** Rendering: rows and empty dimensions *)

Section RenderingRows.
Context {Scalar : Type} `{DoublePrinter Scalar}.

Lemma bracketed_rows_are_vectors (F : Z) (value : Z -> Z -> Scalar)
    (indices : list nat) :
  bracketed_rows (map (fun i => coords F (value (Z.of_nat i))) indices) =
  fold_right
    (fun i rest =>
       (VectorToString F (value (Z.of_nat i)) ++ "," ++ newline ++ rest)%string)
    EmptyString indices.
Proof.
  induction indices as [| i indices' IH]; cbn [map bracketed_rows fold_right].
  - reflexivity.
  - rewrite IH, VectorToString_shape.
    cbn [String.append]. rewrite !string_app_assoc. reflexivity.
Qed.

End RenderingRows.

(** X9.  The text of a matrix is made of the texts of its rows as
    VectorToString gives them, in row order, each followed by a comma and
    a newline, between a newline-bracket and a bracket-newline. *)
Theorem MatrixToString_rows_are_vectors (Scalar : Type)
    (P : DoublePrinter Scalar) (F : Z) (value : @Matrix Scalar F) :
  MatrixToString F value =
  (newline ++ "[" ++
   fold_right
     (fun i rest =>
        (VectorToString F (value (Z.of_nat i)) ++ "," ++ newline ++ rest)%string)
     EmptyString (seq 0 (Z.to_nat F)) ++
   "]" ++ newline)%string.
Proof.
  rewrite MatrixToString_shape. unfold rows.
  now rewrite bracketed_rows_are_vectors.
Qed.

(** X10.  With a dimension that is zero or negative (as [Eigen::Dynamic] is)
    the loops run no iteration: the texts are the bare brackets, whatever
    the tensor holds. *)
Theorem rendering_nonpositive_dimension (Scalar : Type)
    (P : DoublePrinter Scalar) (F : Z) (v : @Vector Scalar F)
    (m : @Matrix Scalar F) :
  F <= 0 ->
  VectorToString F v = "[]"%string /\
  MatrixToString F m = (newline ++ "[]" ++ newline)%string.
Proof.
  intros HF. rewrite VectorToString_shape, MatrixToString_shape.
  unfold coords, rows.
  assert (Z.to_nat F = 0%nat) as -> by lia.
  split; reflexivity.
Qed.

Lemma rendering_nonpositive_dimension_witness :
  @VectorToString Z decimal_printer (-1) (fun i => i) = "[]"%string /\
  @MatrixToString Z decimal_printer (-1) (fun i j => i + j) =
    (newline ++ "[]" ++ newline)%string.
Proof.
  apply (rendering_nonpositive_dimension Z decimal_printer (-1)
           (fun i => i) (fun i j => i + j)).
  lia.
Defined.

(** ** The seed mixer: widths, inputs and extensions *)

Lemma mod_pow2_mod_pow2 (x w : Z) :
  0 <= w <= 64 -> (x mod 2 ^ 64) mod 2 ^ w = x mod 2 ^ w.
Proof.
  intros Hw. apply Z.mod_mod_divide.
  exists (2 ^ (64 - w)). rewrite <- Z.pow_add_r by lia. f_equal. lia.
Qed.

Section MixerFacts.
Context `{HashMixImpl}.

Lemma CustomHashMix_loop_congruent (numbers numbers' : list Z) :
  Forall2 (fun a b => a mod 2 ^ 64 = b mod 2 ^ 64) numbers numbers' ->
  forall mix : HashMix,
    CustomHashMix_loop numbers mix = CustomHashMix_loop numbers' mix.
Proof.
  induction 1 as [| a b numbers numbers' Hab _ IH]; intros mix;
    cbn [CustomHashMix_loop].
  - reflexivity.
  - rewrite !(convert_unsigned size_t) by reflexivity.
    change (width size_t) with 64. rewrite Hab. apply IH.
Qed.

Lemma mixed_app (numbers more : list Z) :
  mixed (numbers ++ more) =
  fold_left (fun mix number => HashMix_Mix mix (convert size_t number))
    more (mixed numbers).
Proof. unfold mixed. now rewrite fold_left_app. Qed.

End MixerFacts.

(** X11.  The digest at an unsigned type of at most 64 bits is the digest at
    [size_t] reduced to that width: digests of the same numbers at
    different widths agree on their common low bits. *)
Theorem CustomHashMix_width_consistent (M : HashMixImpl) (NumberT : IntType)
    (numbers : list Z) :
  is_signed NumberT = false ->
  0 <= width NumberT <= 64 ->
  CustomHashMix NumberT numbers =
  CustomHashMix size_t numbers mod 2 ^ width NumberT.
Proof.
  intros Hu Hw. rewrite !CustomHashMix_mixed.
  rewrite (convert_unsigned NumberT) by exact Hu.
  rewrite (convert_unsigned size_t) by reflexivity.
  change (width size_t) with 64. now rewrite mod_pow2_mod_pow2.
Qed.

Lemma CustomHashMix_width_consistent_witness :
  @CustomHashMix rotating_mixer RandomSeedT [1; 2] =
  @CustomHashMix rotating_mixer size_t [1; 2] mod 2 ^ width RandomSeedT.
Proof.
  apply (CustomHashMix_width_consistent rotating_mixer RandomSeedT [1; 2]).
  - reflexivity.
  - cbn. lia.
Defined.

(** X12.  Only the low 64 bits of each number reach the mixer: two sequences
    whose numbers agree modulo 2^64, position by position (as -1 of a
    signed type and 2^64 - 1 of an unsigned one do), bring the mixer to
    the same accumulator and get the same digest at every return type. *)
Theorem CustomHashMix_congruent_inputs (M : HashMixImpl)
    (numbers numbers' : list Z) :
  Forall2 (fun a b => a mod 2 ^ 64 = b mod 2 ^ 64) numbers numbers' ->
  mixed numbers = mixed numbers' /\
  forall NumberT : IntType,
    CustomHashMix NumberT numbers = CustomHashMix NumberT numbers'.
Proof.
  intros Hcong.
  assert (mixed numbers = mixed numbers') as Hsame.
  { unfold mixed. rewrite <- !CustomHashMix_loop_fold.
    now apply CustomHashMix_loop_congruent. }
  split; [exact Hsame |].
  intros NumberT. now rewrite !CustomHashMix_mixed, Hsame.
Qed.

Lemma CustomHashMix_congruent_inputs_witness :
  @mixed rotating_mixer [-1; 7] = @mixed rotating_mixer [2 ^ 64 - 1; 7] /\
  forall NumberT : IntType,
    @CustomHashMix rotating_mixer NumberT [-1; 7] =
    @CustomHashMix rotating_mixer NumberT [2 ^ 64 - 1; 7].
Proof.
  apply (CustomHashMix_congruent_inputs rotating_mixer
           [-1; 7] [2 ^ 64 - 1; 7]).
  repeat constructor.
Defined.

(** X13.  Once two sequences have brought the mixer to the same accumulator,
    appending the same numbers to both keeps their digests equal, at
    every number type. *)
Theorem CustomHashMix_collision_extends (M : HashMixImpl)
    (numbers numbers' more : list Z) (NumberT : IntType) :
  mixed numbers = mixed numbers' ->
  CustomHashMix NumberT (numbers ++ more) =
  CustomHashMix NumberT (numbers' ++ more).
Proof.
  intros Hsame. rewrite !CustomHashMix_mixed, !mixed_app. now rewrite Hsame.
Qed.

Lemma CustomHashMix_collision_extends_witness :
  @CustomHashMix additive_mixer RandomSeedT ([1; 2] ++ [5; 8]) =
  @CustomHashMix additive_mixer RandomSeedT ([2; 1] ++ [5; 8]).
Proof.
  apply (CustomHashMix_collision_extends additive_mixer [1; 2] [2; 1] [5; 8]
           RandomSeedT).
  reflexivity.
Defined.

(** X14.  A [RandomSeedT] digest always passes SafeCast to [IntegerT], and the
    [IntegerT] obtained passes SafeCast back to [RandomSeedT], unchanged
    both ways. *)
Theorem digest_castable_to_IntegerT_and_back (M : HashMixImpl)
    (ops : SafeIntOps) (numbers : list Z) :
  SafeAdd_contract ops ->
  (seed <- SafeCast RandomSeedT IntegerT (CustomHashMix RandomSeedT numbers) ;;
   SafeCast IntegerT RandomSeedT seed) =
  Returned (CustomHashMix RandomSeedT numbers).
Proof.
  intros contract.
  assert (in_range RandomSeedT (CustomHashMix RandomSeedT numbers)) as Hr.
  { rewrite CustomHashMix_mixed.
    apply convert_unsigned_in_range; [reflexivity | cbn; lia]. }
  rewrite (SafeCast_in_range ops contract RandomSeedT IntegerT).
  - cbn [bind]. now apply (SafeCast_in_range ops contract).
  - unfold in_range, min_value, max_value in *. cbn in *. lia.
Qed.

Lemma digest_castable_to_IntegerT_and_back_witness :
  (seed <- @SafeCast exact_SafeAdd RandomSeedT IntegerT
             (@CustomHashMix rotating_mixer RandomSeedT [1; 2]) ;;
   @SafeCast exact_SafeAdd IntegerT RandomSeedT seed) =
  Returned (@CustomHashMix rotating_mixer RandomSeedT [1; 2]).
Proof.
  apply (digest_castable_to_IntegerT_and_back rotating_mixer exact_SafeAdd
           [1; 2] exact_SafeAdd_contract).
Defined.

(** ** Print and Flush *)

Lemma string_app_nil_r (a : string) : (a ++ EmptyString)%string = a.
Proof. induction a as [| ch a IH]; cbn; [reflexivity | now rewrite IH]. Qed.

Lemma Print_shift_fold (components : list Component) :
  forall (print : Print) (cout : string),
    stream_ (fst (fold_left Print_shift components (print, cout))) =
    (stream_ print ++ streamed_text components)%string.
Proof.
  induction components as [| component components' IH]; intros print cout;
    cbn [fold_left streamed_text].
  - cbn [fst]. now rewrite string_app_nil_r.
  - destruct component as [text |]; cbn [Print_shift]; rewrite IH.
    + cbn [stream_]. unfold put. now rewrite string_app_assoc.
    + reflexivity.
Qed.

Lemma Print_chain_stream (cout : string) (components : list Component) :
  stream_ (fst (Print_chain cout components)) =
  ("DEBUG: " ++ streamed_text components)%string.
Proof. unfold Print_chain. now rewrite Print_shift_fold. Qed.

Lemma Print_shift_silent (components : list Component) :
  has_Flush components = false ->
  forall (print : Print) (cout : string),
    snd (fold_left Print_shift components (print, cout)) = cout.
Proof.
  unfold has_Flush.
  induction components as [| component components' IH]; intros Hnone print cout;
    cbn [fold_left].
  - reflexivity.
  - cbn [existsb] in Hnone. apply orb_false_iff in Hnone as [Hc Hrest].
    destruct component as [text |]; [| discriminate Hc].
    cbn [Print_shift]. now apply IH.
Qed.

(** X15.  A [Flush] writes to [std::cout] the marker "DEBUG: ", then everything
    streamed into the object since it was constructed (what came before
    an earlier [Flush] included: the buffer is never cleared), then a
    newline; it leaves the object as it was. *)
Theorem Print_Flush_writes_all_streamed (cout : string)
    (components : list Component) :
  Print_chain cout (components ++ [Flush]) =
  (fst (Print_chain cout components),
   (snd (Print_chain cout components) ++
    "DEBUG: " ++ streamed_text components ++ newline)%string).
Proof.
  unfold Print_chain at 1. rewrite fold_left_app. fold (Print_chain cout components).
  cbn [fold_left]. 
  pose proof (Print_chain_stream cout components) as Hstream.
  destruct (Print_chain cout components) as [print out].
  cbn [fst snd Print_shift] in *. rewrite Hstream. unfold put.
  now rewrite !string_app_assoc.
Qed.

(** X16.  A chain without [Flush] writes nothing to [std::cout]: what was
    streamed stays in the object. *)
Theorem Print_without_Flush_is_silent (cout : string)
    (components : list Component) :
  has_Flush components = false ->
  snd (Print_chain cout components) = cout /\
  stream_ (fst (Print_chain cout components)) =
    ("DEBUG: " ++ streamed_text components)%string.
Proof.
  intros Hnone. split.
  - unfold Print_chain. now apply Print_shift_silent.
  - apply Print_chain_stream.
Qed.

Lemma Print_without_Flush_is_silent_witness :
  snd (Print_chain "log"%string [Printed "x = "%string; Printed "3"%string]) =
    "log"%string /\
  stream_ (fst (Print_chain "log"%string
                  [Printed "x = "%string; Printed "3"%string])) =
    "DEBUG: x = 3"%string.
Proof.
  apply (Print_without_Flush_is_silent "log"%string
           [Printed "x = "%string; Printed "3"%string]).
  reflexivity.
Defined.

(** ** Numbers of the documented kind reach the mixer unchanged *)

(** X17.  When the number type is unsigned and has at most 64 bits, as the
    header asks, the cast to [size_t] changes no number: the accumulator
    is [Mix] folded over the numbers themselves. *)
Theorem CustomHashMix_mixes_numbers_unchanged (M : HashMixImpl)
    (NumberT : IntType) (numbers : list Z) :
  is_signed NumberT = false ->
  0 <= width NumberT <= 64 ->
  Forall (in_range NumberT) numbers ->
  CustomHashMix NumberT numbers =
  convert NumberT (HashMix_get (fold_left HashMix_Mix numbers HashMix_ctor)).
Proof.
  intros Hu Hw Hall. rewrite CustomHashMix_mixed. unfold mixed.
  do 2 f_equal. generalize HashMix_ctor as mix.
  induction Hall as [| number numbers' Hn _ IH]; intros mix; cbn [fold_left].
  - reflexivity.
  - rewrite (static_cast_size_t_id NumberT number Hu Hw Hn). apply IH.
Qed.

Lemma CustomHashMix_mixes_numbers_unchanged_witness :
  @CustomHashMix rotating_mixer RandomSeedT [4294967295; 0; 17] =
  convert RandomSeedT
    (@HashMix_get rotating_mixer
       (fold_left (@HashMix_Mix rotating_mixer) [4294967295; 0; 17]
          (@HashMix_ctor rotating_mixer))).
Proof.
  apply (CustomHashMix_mixes_numbers_unchanged rotating_mixer RandomSeedT
           [4294967295; 0; 17]).
  - reflexivity.
  - cbn. lia.
  - repeat constructor; range_by_computation.
Defined.
